(** * rocMLIR: WMMA instruction-group selection and the Rock C API

    A shallow embedding of
    - [mlir/lib/Dialect/Rock/IR/WmmaInsnGroup.cpp] (module [WmmaInsnGroup]):
      [getRetType], [WmmaInsn::isCoherentWithK], [WmmaInsn::select];
    - [mlir/lib/CAPI/Dialect/Rock.cpp] (module [RockCAPI]):
      [mlirRockTuningParamToString], [mlirRockTuningGetKey],
      [mlirIsSplitKFaster], [mlirGetNumPrefillArgs],
      [mlirGetPrefillArgsInfo].

    Conventions.  An [int64_t] is a [Z]; the one operation of the two files
    that can leave the 64-bit range (the product in [isCoherentWithK]) has
    its two's-complement wrap-around written out.  C++ [%] and [/] on
    signed integers truncate towards zero: they are [Z.rem] and [Z.quot].
    A [size_t] is an [N].  [FailureOr<T>] is [option T].  Code that stops on
    a failed [assert] returns [None]. *)

From Stdlib Require Import ZArith NArith List Bool String Lia.
From Stdlib Require Import Init.Byte.
Import ListNotations.

Local Open Scope Z_scope.

(** ** 64-bit signed integers *)

Module Int64.

Definition min_signed : Z := - 2 ^ 63.
Definition max_signed : Z := 2 ^ 63 - 1.
Definition modulus : Z := 2 ^ 64.

Definition in_range (z : Z) : Prop := min_signed <= z <= max_signed.

(** Two's-complement reduction of a mathematical integer to [int64_t]. *)
Definition wrap (z : Z) : Z := (z + 2 ^ 63) mod modulus - 2 ^ 63.

Definition mul (a b : Z) : Z := wrap (a * b).

End Int64.

(** ** mlir/lib/Dialect/Rock/IR/WmmaInsnGroup.cpp *)

Module WmmaInsnGroup.

(** The builtin element types an operand of a GEMM can have.  These are the
    scalar types [VectorType::get] accepts as element type, so the three
    [VectorType::get] calls of [select] are defined on every one of them. *)
Inductive Signedness := Signless | Signed | Unsigned.

Inductive FloatKind :=
| F8E5M2 | F8E4M3FN | F8E5M2FNUZ | F8E4M3FNUZ | F8E4M3B11FNUZ
| BF16 | F16 | TF32 | F32 | F64 | F80 | F128.

Inductive ElemType :=
| FloatType (k : FloatKind)
| IntegerType (width : N) (s : Signedness)
| IndexType.

Definition Signedness_eqb (a b : Signedness) : bool :=
  match a, b with
  | Signless, Signless | Signed, Signed | Unsigned, Unsigned => true
  | _, _ => false
  end.

Definition FloatKind_eqb (a b : FloatKind) : bool :=
  match a, b with
  | F8E5M2, F8E5M2 | F8E4M3FN, F8E4M3FN | F8E5M2FNUZ, F8E5M2FNUZ
  | F8E4M3FNUZ, F8E4M3FNUZ | F8E4M3B11FNUZ, F8E4M3B11FNUZ
  | BF16, BF16 | F16, F16 | TF32, TF32 | F32, F32 | F64, F64
  | F80, F80 | F128, F128 => true
  | _, _ => false
  end.

(** [Type::operator==]: types are uniqued, equality is structural. *)
Definition ElemType_eqb (a b : ElemType) : bool :=
  match a, b with
  | FloatType k1, FloatType k2 => FloatKind_eqb k1 k2
  | IntegerType w1 s1, IntegerType w2 s2 =>
      N.eqb w1 w2 && Signedness_eqb s1 s2
  | IndexType, IndexType => true
  | _, _ => false
  end.

Definition f16 : ElemType := FloatType F16.
Definition bf16 : ElemType := FloatType BF16.
Definition f32 : ElemType := FloatType F32.
Definition i8 : ElemType := IntegerType 8 Signless.
Definition i32 : ElemType := IntegerType 32 Signless.

(** [Type::isF16], [Type::isBF16], and [Type::isInteger(width)], which
    holds for an integer type of that width of any signedness. *)
Definition isF16 (t : ElemType) : bool :=
  match t with FloatType F16 => true | _ => false end.

Definition isBF16 (t : ElemType) : bool :=
  match t with FloatType BF16 => true | _ => false end.

Definition isInteger (t : ElemType) (width : N) : bool :=
  match t with IntegerType w _ => N.eqb w width | _ => false end.

(** [VectorType::get(shape, elementType)]. *)
Record VectorType := mkVectorType {
  getShape : list Z;
  getElementType : ElemType
}.

(** The three ROCDL operations [select] chooses from; their textual names
    ([getOperationName()]) are generated from the dialect's operation
    table, which lies outside the two files, and are taken as a parameter
    below. *)
Inductive ROCDLOp :=
| wmma_f32_16x16x16_f16
| wmma_f32_16x16x16_bf16
| wmma_i32_16x16x16_iu8.

Definition StringRef := string.

(** [struct WmmaInsn], fields in the order of the aggregate initialiser at
    the end of [select]. *)
Record WmmaInsn := mkWmmaInsn {
  insn : StringRef;
  inputLen : Z;
  outLen : Z;
  outStride : Z;
  mRepeats : Z;
  nRepeats : Z;
  argTypeA : VectorType;
  argTypeB : VectorType;
  retType : VectorType
}.

(** [Builder::getI32Type] is the signless [i32]. *)
Definition getRetType (inputType : ElemType) : ElemType :=
  if isInteger inputType 8 then i32 else f32.

(** [WmmaInsn::isCoherentWithK]: [kPerBlock * kpack] is an [int64_t]
    product. *)
Definition isCoherentWithK (self : WmmaInsn) (kpack kPerBlock : Z) : bool :=
  if Int64.mul kPerBlock kpack <? inputLen self then false else true.

Section Select.

Variable getOperationName : ROCDLOp -> StringRef.

(** [WmmaInsn::select]; [None] is [failure()]. *)
Definition select (elementTypeA elementTypeB : ElemType)
    (waveSize mPerWave nPerWave : Z) : option WmmaInsn :=
  if negb (ElemType_eqb elementTypeA elementTypeB) then None
  else if negb (waveSize =? 32) then None
  else
    let inputLen := 16 in
    let outLen := 8 in
    let outStride := 2 in
    if negb (Z.rem mPerWave inputLen =? 0) then None
    else if negb (Z.rem nPerWave inputLen =? 0) then None
    else
      let mRepeats := Z.quot mPerWave inputLen in
      let nRepeats := Z.quot nPerWave inputLen in
      let argTypeA := mkVectorType [inputLen] elementTypeA in
      let argTypeB := mkVectorType [inputLen] elementTypeB in
      let retType := mkVectorType [outLen] (getRetType elementTypeA) in
      let insn :=
        if isF16 elementTypeA then
          Some (getOperationName wmma_f32_16x16x16_f16)
        else if isBF16 elementTypeA then
          Some (getOperationName wmma_f32_16x16x16_bf16)
        else if isInteger elementTypeA 8 then
          Some (getOperationName wmma_i32_16x16x16_iu8)
        else None in
      match insn with
      | None => None
      | Some insn =>
          Some (mkWmmaInsn insn inputLen outLen outStride mRepeats nRepeats
                  argTypeA argTypeB retType)
      end.

End Select.

(** *** Vocabulary of the statements below *)

(** The operand types [select] has an instruction for. *)
Definition supported (a : ElemType) : bool :=
  isF16 a || isBF16 a || isInteger a 8.

(** The descriptor [select] builds once an instruction name is chosen. *)
Definition descriptor (name : StringRef) (a b : ElemType) (m n : Z)
    : WmmaInsn :=
  mkWmmaInsn name 16 8 2 (Z.quot m 16) (Z.quot n 16)
    (mkVectorType [16] a) (mkVectorType [16] b)
    (mkVectorType [8] (getRetType a)).

(** The names the ROCDL dialect gives the three operations; the
    instance of [getOperationName] the examples run on. *)
Definition rocdlOperationName (op : ROCDLOp) : StringRef :=
  match op with
  | wmma_f32_16x16x16_f16 => "rocdl.wmma.f32.16x16x16.f16"
  | wmma_f32_16x16x16_bf16 => "rocdl.wmma.f32.16x16x16.bf16"
  | wmma_i32_16x16x16_iu8 => "rocdl.wmma.i32.16x16x16.iu8"
  end%string.

(** The descriptor of one 16x16 [f16] tile, [select(f16, f16, 32, 16, 16)]. *)
Definition f16_tile : WmmaInsn :=
  descriptor (rocdlOperationName wmma_f32_16x16x16_f16) f16 f16 16 16.

End WmmaInsnGroup.

(** ** mlir/lib/CAPI/Dialect/Rock.cpp *)

Module RockCAPI.

Local Open Scope N_scope.

Definition size_t := N.

(** [(size_t)(-1)] on the 64-bit targets. *)
Definition SIZE_MAX : size_t := 2 ^ 64 - 1.

(** *** Character buffers

    A [char *] is an address into a byte-addressed memory. *)
Definition Memory := N -> byte.

Definition store (m : Memory) (p : N) (c : byte) : Memory :=
  fun q => if q =? p then c else m q.

Definition is_nul (c : byte) : bool :=
  match c with x00 => true | _ => false end.

(** [n] NUL bytes from [dest] on. *)
Fixpoint zero_fill (m : Memory) (dest : N) (n : nat) : Memory :=
  match n with
  | O => m
  | S n' => zero_fill (store m dest x00) (dest + 1) n'
  end.

(** [strncpy(dest, src, n)], where [src] is the content of a [SmallString]
    and the source pointer is its [c_str()], the content followed by a NUL:
    characters are copied until [n] are written or a NUL is read, and the
    rest of the [n] bytes is filled with NULs. *)
Fixpoint strncpy_from (m : Memory) (dest : N) (src : list byte) (n : nat)
    {struct n} : Memory :=
  match n with
  | O => m
  | S n' =>
      match src with
      | c :: src' =>
          if is_nul c then zero_fill m dest n
          else strncpy_from (store m dest c) (dest + 1) src' n'
      | [] => zero_fill m dest n
      end
  end.

Definition strncpy (m : Memory) (dest : N) (src : list byte) (n : size_t)
    : Memory :=
  strncpy_from m dest src (N.to_nat n).

(** [strlen] of the [c_str()] of a [SmallString] with content [src]. *)
Fixpoint strlen (src : list byte) : nat :=
  match src with
  | [] => O
  | c :: src' => if is_nul c then O else S (strlen src')
  end.

(** [SmallString::size()]. *)
Definition size (s : list byte) : size_t := N.of_nat (List.length s).

(** *** The IR the prefill queries walk *)

Inductive RocmlirTuningParamSetKind :=
| RocmlirTuningParamSetKindQuick
| RocmlirTuningParamSetKindFull
| RocmlirTuningParamSetKindExhaustive.

Inductive RocmlirSplitKSelectionLikelihood := never | maybe | always.

(** A call that leaves the file, recorded by the functions whose claims
    depend on whether it is made. *)
Inductive ExternCall :=
| Call_isSplitKFaster (gDim mDim nDim kDim numCUs : Z).

Section CAPI.

(** What the file takes from the rest of the Rock dialect. *)
Variable ParamEntry : Type.
(** [paramEntry->param.getPerfConfigStr(perfConfig)] on an empty
    [perfConfig]: the canonical perf-config string. *)
Variable getPerfConfigStr : ParamEntry -> list byte.

Variable Attribute : Type.
Variable PrefillAttr : Type.
(** [getArgIndex()] as the [size_t] the assignment to [indices[i]] stores. *)
Variable getArgIndex : PrefillAttr -> size_t.
Variable getInitValue : PrefillAttr -> Attribute.

(** An operation: its name, its attribute dictionary, and its regions,
    each a list of blocks, each a list of operations. *)
#[warnings="-register-all"] Inductive Operation :=
| mkOperation (name : string) (attrs : list (string * Attribute))
    (regions : list (list (list Operation))).

Definition getName (op : Operation) : string :=
  match op with mkOperation name _ _ => name end.

(** [builtin.module] has one region that holds exactly one block (its
    [SingleBlock] trait and region constraint), which is what both prefill
    queries assert first; the model has that block as the module's body. *)
Record ModuleOp := mkModuleOp {
  getBody : list Operation
}.

Variable getTuningProblemStr : ModuleOp -> option (list byte).
Variable isSplitKFaster : Z -> Z -> Z -> Z -> Z ->
  RocmlirSplitKSelectionLikelihood.
Variable getStoredPrefillAttributes : Operation -> list PrefillAttr.

(** [Operation::walk], post-order: the operations nested in [op], then
    [op]. *)
Fixpoint walk (op : Operation) : list Operation :=
  match op with
  | mkOperation _ _ regions =>
      flat_map (flat_map (flat_map walk)) regions ++ [op]
  end.

(** The operations [mod.walk] visits before the module operation itself
    (which is no [LLVM::LLVMFuncOp]). *)
Definition walkModule (module : ModuleOp) : list Operation :=
  flat_map walk (getBody module).

Definition isLLVMFuncOp (op : Operation) : bool :=
  String.eqb (getName op) "llvm.func".

Definition llvmFuncOps (module : ModuleOp) : list Operation :=
  filter isLLVMFuncOp (walkModule module).

(** [std::optional<LLVM::LLVMFuncOp> func = std::nullopt;
     mod.walk([&](LLVM::LLVMFuncOp op) { func = op; });] *)
Definition walkFunc (module : ModuleOp) : option Operation :=
  fold_left (fun func op => if isLLVMFuncOp op then Some op else func)
    (walkModule module) None.

(** *** The exported functions *)

Definition mlirRockTuningParamToString (param : ParamEntry) (mem : Memory)
    (buf : N) (bufLen : size_t) : size_t * Memory :=
  let perfConfig := getPerfConfigStr param in
  let mem := strncpy mem buf perfConfig bufLen in
  (size perfConfig, mem).

Definition mlirRockTuningGetKey (module : ModuleOp) (mem : Memory)
    (buf : N) (bufLen : size_t) : size_t * Memory :=
  match getTuningProblemStr module with
  | None => (SIZE_MAX, mem)
  | Some perfStr =>
      let mem := strncpy mem buf perfStr bufLen in
      (size perfStr, mem)
  end.

Definition mlirIsSplitKFaster (gDim mDim nDim kDim numCUs : Z)
    (tuningLevel : RocmlirTuningParamSetKind)
    : list ExternCall * RocmlirSplitKSelectionLikelihood :=
  match tuningLevel with
  | RocmlirTuningParamSetKindQuick => ([], never)
  | _ => ([Call_isSplitKFaster gDim mDim nDim kDim numCUs],
          isSplitKFaster gDim mDim nDim kDim numCUs)
  end.

Definition mlirGetNumPrefillArgs (module : ModuleOp) : size_t :=
  match walkFunc module with
  | None => 0
  | Some func => N.of_nat (List.length (getStoredPrefillAttributes func))
  end.

(** The caller's two arrays, by index. *)
Record PrefillArrays := mkPrefillArrays {
  indices : N -> size_t;
  initValues : N -> Attribute
}.

Definition update {A} (arr : N -> A) (i : N) (v : A) : N -> A :=
  fun j => if j =? i then v else arr j.

(** The loop [for (size_t i = 0; i < length; ++i)], entered at [i] with
    [count = length - i] iterations to go; [attrs[i]] outside the array is
    no value. *)
Fixpoint fillPrefill (attrs : list PrefillAttr) (count : nat) (i : N)
    (out : PrefillArrays) : option PrefillArrays :=
  match count with
  | O => Some out
  | S count' =>
      match nth_error attrs (N.to_nat i) with
      | None => None
      | Some a =>
          fillPrefill attrs count' (i + 1)
            (mkPrefillArrays (update (indices out) i (getArgIndex a))
                             (update (initValues out) i (getInitValue a)))
      end
  end.

(** [None]: the assertion on [length] fails. *)
Definition mlirGetPrefillArgsInfo (module : ModuleOp) (out : PrefillArrays)
    (length : size_t) : option PrefillArrays :=
  match walkFunc module with
  | None => Some out
  | Some func =>
      let attrs := getStoredPrefillAttributes func in
      if N.of_nat (List.length attrs) <? length then None
      else fillPrefill attrs (N.to_nat length) 0 out
  end.

End CAPI.

Arguments mkOperation {Attribute} name attrs regions.
Arguments mkModuleOp {Attribute} getBody.
Arguments getBody {Attribute} m.
Arguments getName {Attribute} op.
Arguments walk {Attribute} op.
Arguments walkModule {Attribute} module.
Arguments isLLVMFuncOp {Attribute} op.
Arguments llvmFuncOps {Attribute} module.
Arguments walkFunc {Attribute} module.
Arguments mkPrefillArrays {Attribute} indices initValues.
Arguments indices {Attribute} p.
Arguments initValues {Attribute} p.
Arguments mlirRockTuningParamToString {ParamEntry} getPerfConfigStr
  param mem buf bufLen.
Arguments mlirRockTuningGetKey {Attribute} getTuningProblemStr
  module mem buf bufLen.
Arguments mlirGetNumPrefillArgs {Attribute PrefillAttr}
  getStoredPrefillAttributes module.
Arguments fillPrefill {Attribute PrefillAttr} getArgIndex getInitValue
  attrs count i out.
Arguments mlirGetPrefillArgsInfo {Attribute PrefillAttr}
  getArgIndex getInitValue getStoredPrefillAttributes module out length.

(** *** Instances the examples run on *)

(** A perf-config string and a workload key. *)
Definition examplePerfConfig : list byte :=
  list_byte_of_string "v2:64,64,4,32,32,8,1,1,1".

Definition exampleKey : list byte :=
  list_byte_of_string "gfx1100 -t f16 -g 1 -m 64 -k 64 -n 64".

(** A memory full of ['?']. *)
Definition exampleMemory : Memory := fun _ => "?"%byte.

(** Attributes as integers, a prefill attribute as its pair. *)
Definition examplePrefill (op : Operation Z) : list (N * Z) :=
  [(1, 0%Z); (3, 255%Z)].

(** A module with one [llvm.func], and one with none. *)
Definition exampleKernelModule : ModuleOp Z :=
  mkModuleOp
    [mkOperation "llvm.func" []
       [[[mkOperation "llvm.return" [] []]]]].

Definition exampleHostModule : ModuleOp Z :=
  mkModuleOp
    [mkOperation "func.func" []
       [[[mkOperation "func.return" [] []]]]].

Definition exampleArrays : PrefillArrays Z :=
  mkPrefillArrays (fun _ => 77) (fun _ => (-1)%Z).

(** A function next to a [gpu.module] that holds a second one; the
    attributes stored on an operation read off its dictionary. *)
Definition exampleInnerFunc : Operation Z :=
  mkOperation "llvm.func" [("second"%string, 2%Z)] [].

Definition exampleOuterFunc : Operation Z :=
  mkOperation "llvm.func" [("first"%string, 1%Z)] [].

Definition exampleGpuModule : Operation Z :=
  mkOperation "gpu.module" [] [[[exampleInnerFunc]]].

Definition exampleNestedModule : ModuleOp Z :=
  mkModuleOp [exampleOuterFunc; exampleGpuModule].

Definition exampleStored (op : Operation Z) : list (N * Z) :=
  match op with
  | mkOperation _ attrs _ => map (fun kv => (3, snd kv)) attrs
  end.

(** *** Vocabulary of the further properties *)

(** The [n] bytes of memory from [p] on. *)
Fixpoint load (m : Memory) (p : N) (n : nat) : list byte :=
  match n with
  | O => []
  | S n' => m p :: load m (p + 1) n'
  end.

(** No NUL character inside a string. *)
Definition no_nul (s : list byte) : bool :=
  forallb (fun c => negb (is_nul c)) s.

(** [contains top op]: [op] is [top] or is nested in one of its regions,
    at any depth. *)
Inductive contains {Attribute : Type}
    : Operation Attribute -> Operation Attribute -> Prop :=
| contains_self op : contains op op
| contains_nested name attrs regions region block child op :
    In region regions -> In block region -> In child block ->
    contains child op ->
    contains (mkOperation name attrs regions) op.

(** *** The size of a tuning space *)

Section TuningSpace.

(** The element type of [tuningRange] is declared outside the file. *)
Variable Candidate : Type.

(** [struct TuningParamSet], the one field the file reads. *)
Record TuningParamSet := mkTuningParamSet {
  tuningRange : list Candidate
}.

(** [unsigned mlirRockTuningGetNumParams]: the [size_t] of
    [tuningRange.size()] converted to a 32-bit [unsigned]. *)
Definition mlirRockTuningGetNumParams (params : TuningParamSet) : N :=
  N.of_nat (List.length (tuningRange params)) mod 2 ^ 32.

End TuningSpace.

Arguments mkTuningParamSet {Candidate} tuningRange.
Arguments tuningRange {Candidate} t.
Arguments mlirRockTuningGetNumParams {Candidate} params.

End RockCAPI.

(** * Properties *)

(** ** 64-bit arithmetic *)

Module Int64Facts.
Import Int64.

Lemma wrap_in_range z : in_range (wrap z).
Proof.
  unfold in_range, wrap, min_signed, max_signed, modulus.
  pose proof (Z.mod_pos_bound (z + 2 ^ 63) (2 ^ 64) eq_refl). lia.
Qed.

Lemma wrap_small z : in_range z -> wrap z = z.
Proof.
  unfold in_range, wrap, min_signed, max_signed, modulus. intros Hz.
  rewrite Z.mod_small by lia. lia.
Qed.

Lemma mul_exact a b : in_range (a * b) -> mul a b = a * b.
Proof. apply wrap_small. Qed.

(** Truncated remainder and quotient by 16 on exact multiples. *)
Lemma rem_16_divide z : Z.rem z 16 = 0 <-> (16 | z).
Proof.
  split.
  - intros H. exists (Z.quot z 16).
    pose proof (Z.quot_rem' z 16). lia.
  - intros [k ->]. apply Z.rem_mul. discriminate.
Qed.

Lemma quot_16_mul k : Z.quot (16 * k) 16 = k.
Proof. rewrite Z.mul_comm. apply Z.quot_mul. discriminate. Qed.

Lemma quot_16_div z : (16 | z) -> Z.quot z 16 = z / 16.
Proof.
  intros [k ->]. rewrite Z.quot_mul, Z.div_mul; [reflexivity | |]; discriminate.
Qed.

(** Neither [%] nor [/] by 16 leaves the 64-bit range. *)
Lemma quot_16_in_range z : in_range z -> in_range (Z.quot z 16).
Proof.
  unfold in_range, min_signed, max_signed. intros Hz.
  pose proof (Z.quot_rem' z 16) as E.
  destruct (Z_le_gt_dec 0 z) as [Hpos | Hneg].
  - pose proof (Z.rem_bound_pos z 16 Hpos eq_refl). lia.
  - pose proof (Z.rem_bound_pos_neg z 16 eq_refl ltac:(lia)). lia.
Qed.

End Int64Facts.

(** ** Instruction selection *)

Module WmmaInsnGroupFacts.
Import WmmaInsnGroup Int64Facts.

Lemma Signedness_eqb_eq a b : Signedness_eqb a b = true <-> a = b.
Proof. destruct a, b; simpl; split; congruence. Qed.

Lemma FloatKind_eqb_eq a b : FloatKind_eqb a b = true <-> a = b.
Proof. destruct a, b; simpl; split; congruence. Qed.

Lemma ElemType_eqb_eq a b : ElemType_eqb a b = true <-> a = b.
Proof.
  destruct a as [k1 | w1 s1 |], b as [k2 | w2 s2 |]; simpl;
    try (split; congruence).
  - rewrite FloatKind_eqb_eq. split; congruence.
  - rewrite andb_true_iff, N.eqb_eq, Signedness_eqb_eq.
    split; [intros [-> ->]; reflexivity | intros [= -> ->]; auto].
Qed.

Lemma ElemType_eqb_refl a : ElemType_eqb a a = true.
Proof. now apply ElemType_eqb_eq. Qed.

Lemma ElemType_eqb_neq a b : a <> b -> ElemType_eqb a b = false.
Proof.
  intros Hne. destruct (ElemType_eqb a b) eqn:E; [| reflexivity].
  apply ElemType_eqb_eq in E. contradiction.
Qed.

Lemma isF16_eq a : isF16 a = true <-> a = f16.
Proof.
  destruct a as [[] | |]; simpl; split; unfold f16; congruence.
Qed.

Lemma isBF16_eq a : isBF16 a = true <-> a = bf16.
Proof.
  destruct a as [[] | |]; simpl; split; unfold bf16; congruence.
Qed.

Lemma isInteger_eq a w : isInteger a w = true <-> exists s, a = IntegerType w s.
Proof.
  destruct a as [k | w' s |]; simpl.
  - split; [discriminate | intros [s Hs]; discriminate].
  - rewrite N.eqb_eq. split.
    + intros ->. now exists s.
    + intros [s' [= -> _]]. reflexivity.
  - split; [discriminate | intros [s Hs]; discriminate].
Qed.

Section SelectFacts.

Variable getOperationName : ROCDLOp -> StringRef.

(** Every success of [select] went through all four guards and one of the
    three instruction branches. *)
Lemma select_Some_inv a b w m n d :
  select getOperationName a b w m n = Some d ->
  a = b /\ w = 32 /\ Z.rem m 16 = 0 /\ Z.rem n 16 = 0 /\
  d = descriptor (insn d) a b m n /\
  ((a = f16 /\ insn d = getOperationName wmma_f32_16x16x16_f16) \/
   (a = bf16 /\ insn d = getOperationName wmma_f32_16x16x16_bf16) \/
   ((exists s, a = IntegerType 8 s) /\
    insn d = getOperationName wmma_i32_16x16x16_iu8)).
Proof.
  unfold WmmaInsnGroup.select.
  destruct (ElemType_eqb a b) eqn:Eab; simpl; [| discriminate].
  destruct (w =? 32) eqn:Ew; simpl; [| discriminate].
  destruct (Z.rem m 16 =? 0) eqn:Em; simpl; [| discriminate].
  destruct (Z.rem n 16 =? 0) eqn:En; simpl; [| discriminate].
  apply ElemType_eqb_eq in Eab. apply Z.eqb_eq in Ew, Em, En.
  destruct (isF16 a) eqn:E1; [| destruct (isBF16 a) eqn:E2;
    [| destruct (isInteger a 8) eqn:E3; [| discriminate]]];
    intros [= <-]; simpl; repeat split; auto.
  - left. split; [now apply isF16_eq | reflexivity].
  - right; left. split; [now apply isBF16_eq | reflexivity].
  - right; right. split; [now apply isInteger_eq | reflexivity].
Qed.

(** The three ways [select] succeeds. *)
Lemma select_f16 m n :
  Z.rem m 16 = 0 -> Z.rem n 16 = 0 ->
  select getOperationName f16 f16 32 m n =
  Some (descriptor (getOperationName wmma_f32_16x16x16_f16) f16 f16 m n).
Proof.
  intros Hm Hn. unfold WmmaInsnGroup.select. simpl.
  rewrite Hm, Hn. reflexivity.
Qed.

Lemma select_bf16 m n :
  Z.rem m 16 = 0 -> Z.rem n 16 = 0 ->
  select getOperationName bf16 bf16 32 m n =
  Some (descriptor (getOperationName wmma_f32_16x16x16_bf16) bf16 bf16 m n).
Proof.
  intros Hm Hn. unfold WmmaInsnGroup.select. simpl.
  rewrite Hm, Hn. reflexivity.
Qed.

Lemma select_int8 s m n :
  Z.rem m 16 = 0 -> Z.rem n 16 = 0 ->
  select getOperationName (IntegerType 8 s) (IntegerType 8 s) 32 m n =
  Some (descriptor (getOperationName wmma_i32_16x16x16_iu8)
          (IntegerType 8 s) (IntegerType 8 s) m n).
Proof.
  intros Hm Hn. unfold WmmaInsnGroup.select.
  rewrite ElemType_eqb_refl. simpl.
  rewrite Hm, Hn. reflexivity.
Qed.

(** The four guards, each on its own. *)
Lemma select_type_mismatch a b w m n :
  a <> b -> select getOperationName a b w m n = None.
Proof.
  intros Hne. unfold WmmaInsnGroup.select.
  rewrite (ElemType_eqb_neq _ _ Hne). reflexivity.
Qed.

Lemma select_wave_size a b w m n :
  w <> 32 -> select getOperationName a b w m n = None.
Proof.
  intros Hw. unfold WmmaInsnGroup.select.
  destruct (ElemType_eqb a b); [| reflexivity].
  apply Z.eqb_neq in Hw. rewrite Hw. reflexivity.
Qed.

Lemma select_partial_tile a b w m n :
  Z.rem m 16 <> 0 \/ Z.rem n 16 <> 0 -> select getOperationName a b w m n = None.
Proof.
  intros H.
  destruct (select getOperationName a b w m n) as [d |] eqn:E; [| reflexivity].
  apply select_Some_inv in E. destruct E as (_ & _ & Hm & Hn & _).
  destruct H; contradiction.
Qed.

Lemma select_other_type a b w m n :
  supported a = false -> select getOperationName a b w m n = None.
Proof.
  unfold supported. rewrite !orb_false_iff. intros [[H1 H2] H3].
  unfold WmmaInsnGroup.select. rewrite H1, H2, H3.
  repeat match goal with |- context [if ?c then _ else _] => destruct c end;
    reflexivity.
Qed.

End SelectFacts.

Lemma not_divide_16 z : ~ (16 | z) -> Z.rem z 16 <> 0.
Proof. intros H E. apply H. now apply rem_16_divide. Qed.

(** C1. For [f16] operands and [waveSize = 32], [select] fails when
    [mPerWave] or [nPerWave] is no exact multiple of 16, and otherwise
    returns a descriptor with [mRepeats = mPerWave / 16] and
    [nRepeats = nPerWave / 16]; [select(f16, f16, 32, 24, 16)] fails and
    [select(f16, f16, 32, 32, 16)] gives [mRepeats = 2], [nRepeats = 1]. *)
Theorem select_f16_tile_multiple :
  forall (names : ROCDLOp -> StringRef) (w m n : Z),
    w = 32 ->
    (~ (16 | m) \/ ~ (16 | n) -> select names f16 f16 w m n = None) /\
    ((16 | m) -> (16 | n) ->
     exists d, select names f16 f16 w m n = Some d /\
               mRepeats d = m / 16 /\ nRepeats d = n / 16) /\
    select names f16 f16 32 24 16 = None /\
    (exists d, select names f16 f16 32 32 16 = Some d /\
               mRepeats d = 2 /\ nRepeats d = 1).
Proof.
  intros names w m n ->. repeat split.
  - intros H. apply select_partial_tile.
    destruct H as [H | H]; [left | right]; now apply not_divide_16.
  - intros Hm Hn. eexists. split.
    + apply select_f16; now apply rem_16_divide.
    + simpl. split; now apply quot_16_div.
  - eexists. split; [reflexivity | split; reflexivity].
Qed.

Lemma select_f16_tile_multiple_witness :
  select rocdlOperationName f16 f16 32 40 16 = None /\
  exists d, select rocdlOperationName f16 f16 32 64 (-32) = Some d /\
            mRepeats d = 64 / 16 /\ nRepeats d = (-32) / 16.
Proof.
  split.
  - apply (proj1 (select_f16_tile_multiple rocdlOperationName 32 40 16
                    eq_refl)).
    left. intros [k Hk]. lia.
  - apply (proj1 (proj2 (select_f16_tile_multiple rocdlOperationName 32 64
                           (-32) eq_refl))).
    + exists 4. reflexivity.
    + exists (-2). reflexivity.
Defined.

(** C2. [select] fails whenever the two operand element types differ or
    [waveSize] is not 32; [select(f16, bf16, 32, 64, 64)] fails. *)
Theorem select_rejects_mismatch_or_wave :
  forall (names : ROCDLOp -> StringRef) (a b : ElemType) (w m n : Z),
    (a <> b \/ w <> 32 -> select names a b w m n = None) /\
    select names f16 bf16 32 64 64 = None.
Proof.
  intros names a b w m n. split; [| reflexivity].
  intros [H | H];
    [now apply select_type_mismatch | now apply select_wave_size].
Qed.

Lemma select_rejects_mismatch_or_wave_witness :
  select rocdlOperationName i8 f16 32 64 64 = None /\
  select rocdlOperationName f16 f16 64 64 64 = None.
Proof.
  split.
  - apply (proj1 (select_rejects_mismatch_or_wave rocdlOperationName
                    i8 f16 32 64 64)).
    left. discriminate.
  - apply (proj1 (select_rejects_mismatch_or_wave rocdlOperationName
                    f16 f16 64 64 64)).
    right. discriminate.
Defined.

(** C3. A descriptor [select] returns carries the instruction of its
    operand element type alone: the [f16] instruction with an [f32]
    result, the [bf16] instruction with an [f32] result, or the 8-bit
    integer instruction with an [i32] result; the wave size and the tile
    shape have no part in the choice; on every other element type, [f32]
    among them, [select] fails. *)
Theorem select_insn_by_element_type :
  forall (names : ROCDLOp -> StringRef) (a b : ElemType) (w m n : Z),
    (forall d, select names a b w m n = Some d ->
       (a = f16 /\ b = f16 /\
        insn d = names wmma_f32_16x16x16_f16 /\
        getElementType (retType d) = f32) \/
       (a = bf16 /\ b = bf16 /\
        insn d = names wmma_f32_16x16x16_bf16 /\
        getElementType (retType d) = f32) \/
       ((exists s, a = IntegerType 8 s) /\ b = a /\
        insn d = names wmma_i32_16x16x16_iu8 /\
        getElementType (retType d) = i32)) /\
    (forall w' m' n' d d',
       select names a b w m n = Some d ->
       select names a b w' m' n' = Some d' ->
       insn d = insn d' /\ retType d = retType d') /\
    (isF16 a = false -> isBF16 a = false -> isInteger a 8 = false ->
     select names a b w m n = None) /\
    select names f32 f32 w m n = None.
Proof.
  intros names a b w m n. split; [| split; [| split]].
  - intros d Hd. apply select_Some_inv in Hd.
    destruct Hd as (<- & _ & _ & _ & Hd & [[-> Hi] | [[-> Hi] | [[s ->] Hi]]]);
      rewrite Hd; simpl.
    + left. auto.
    + right; left. auto.
    + right; right. repeat split; eauto.
  - intros w' m' n' d d' Hd Hd'.
    apply select_Some_inv in Hd. apply select_Some_inv in Hd'.
    destruct Hd as (_ & _ & _ & _ & Ed & Hd).
    destruct Hd' as (_ & _ & _ & _ & Ed' & Hd'). split.
    + destruct Hd as [[-> ->] | [[-> ->] | [[s ->] ->]]];
        destruct Hd' as [[E ->] | [[E ->] | [[s' E] ->]]];
        try reflexivity; discriminate E.
    + rewrite Ed, Ed'. reflexivity.
  - intros H1 H2 H3. apply select_other_type.
    unfold supported. now rewrite H1, H2, H3.
  - now apply select_other_type.
Qed.

Lemma select_insn_by_element_type_witness :
  (exists d, select rocdlOperationName i8 i8 32 32 16 = Some d /\
             insn d = "rocdl.wmma.i32.16x16x16.iu8"%string /\
             getElementType (retType d) = i32) /\
  select rocdlOperationName (IntegerType 16 Signless)
    (IntegerType 16 Signless) 32 32 16 = None.
Proof.
  pose proof (select_insn_by_element_type rocdlOperationName i8 i8 32 32 16)
    as (Hsome & _).
  pose proof (select_insn_by_element_type rocdlOperationName
                (IntegerType 16 Signless) (IntegerType 16 Signless) 32 32 16)
    as (_ & _ & Hnone & _).
  split.
  - eexists. split; [reflexivity |].
    destruct (Hsome _ eq_refl)
      as [(E & _) | [(E & _) | (_ & _ & Hi & Hr)]];
      [discriminate E | discriminate E | split; assumption].
  - apply Hnone; reflexivity.
Defined.

Lemma supported_cases a :
  supported a = true ->
  a = f16 \/ a = bf16 \/ exists s, a = IntegerType 8 s.
Proof.
  unfold supported. rewrite !orb_true_iff.
  intros [[H | H] | H].
  - left. now apply isF16_eq.
  - right; left. now apply isBF16_eq.
  - right; right. now apply isInteger_eq.
Qed.

(** On a supported operand type, wave size 32 and two exact multiples of
    16, [select] succeeds, whatever the sign of the multiples. *)
Lemma select_multiples names a km kn :
  supported a = true ->
  exists d, select names a a 32 (16 * km) (16 * kn) = Some d /\
            mRepeats d = km /\ nRepeats d = kn.
Proof.
  intros Ha.
  assert (Hm : Z.rem (16 * km) 16 = 0)
    by (apply rem_16_divide; exists km; lia).
  assert (Hn : Z.rem (16 * kn) 16 = 0)
    by (apply rem_16_divide; exists kn; lia).
  destruct (supported_cases a Ha) as [-> | [-> | [s ->]]].
  - eexists. split; [now apply select_f16 |].
    unfold descriptor. cbn [mRepeats nRepeats]. now rewrite !quot_16_mul.
  - eexists. split; [now apply select_bf16 |].
    unfold descriptor. cbn [mRepeats nRepeats]. now rewrite !quot_16_mul.
  - eexists. split; [now apply select_int8 |].
    unfold descriptor. cbn [mRepeats nRepeats]. now rewrite !quot_16_mul.
Qed.

(** C8. [select] asks nothing of the sign of the tile sizes: on a
    supported operand type and wave size 32, tile sizes [16 * km] and
    [16 * kn] are accepted for all integers [km] and [kn], zero and
    negative ones too, and the descriptor has [mRepeats = km] and
    [nRepeats = kn]; [select(f16, f16, 32, 0, 16)] gives [mRepeats = 0]. *)
Theorem select_accepts_nonpositive_tiles :
  forall (names : ROCDLOp -> StringRef) (a : ElemType) (w km kn : Z),
    w = 32 -> supported a = true ->
    (exists d, select names a a w (16 * km) (16 * kn) = Some d /\
               mRepeats d = km /\ nRepeats d = kn) /\
    (exists d, select names f16 f16 32 0 16 = Some d /\
               mRepeats d = 0 /\ nRepeats d = 1).
Proof.
  intros names a w km kn -> Ha. split.
  - now apply select_multiples.
  - eexists. split; [reflexivity | split; reflexivity].
Qed.

Lemma select_accepts_nonpositive_tiles_witness :
  exists d, select rocdlOperationName bf16 bf16 32 (-48) 0 = Some d /\
            mRepeats d = -3 /\ nRepeats d = 0.
Proof.
  exact (proj1 (select_accepts_nonpositive_tiles rocdlOperationName bf16 32
                  (-3) 0 eq_refl eq_refl)).
Defined.

(** C9. Every descriptor [select] returns has the same geometry:
    [inputLen = 16], [outLen = 8], [outStride = 2], both operand vector
    types of shape [16] over the operand element type, and the result
    vector type of shape [8] over [getRetType] of it. *)
Theorem select_fixed_geometry :
  forall (names : ROCDLOp -> StringRef) (a b : ElemType) (w m n : Z)
         (d : WmmaInsn),
    select names a b w m n = Some d ->
    inputLen d = 16 /\ outLen d = 8 /\ outStride d = 2 /\
    argTypeA d = mkVectorType [16] a /\
    argTypeB d = mkVectorType [16] b /\
    retType d = mkVectorType [8] (getRetType a).
Proof.
  intros names a b w m n d Hd. apply select_Some_inv in Hd.
  destruct Hd as (_ & _ & _ & _ & -> & _). simpl. repeat split.
Qed.

Lemma select_fixed_geometry_witness :
  inputLen f16_tile = 16 /\ outLen f16_tile = 8 /\ outStride f16_tile = 2 /\
  argTypeA f16_tile = mkVectorType [16] f16 /\
  argTypeB f16_tile = mkVectorType [16] f16 /\
  retType f16_tile = mkVectorType [8] f32.
Proof.
  exact (select_fixed_geometry rocdlOperationName f16 f16 32 16 16 f16_tile
           eq_refl).
Defined.

Lemma select_f16_tile :
  select rocdlOperationName f16 f16 32 16 16 = Some f16_tile.
Proof. reflexivity. Qed.

(** *** The K-coherence check *)

(** What [isCoherentWithK] computes, on the wrapped product. *)
Lemma isCoherentWithK_wrapped d kpack kPerBlock :
  isCoherentWithK d kpack kPerBlock = true <->
  inputLen d <= Int64.mul kPerBlock kpack.
Proof.
  unfold isCoherentWithK.
  destruct (Z.ltb_spec (Int64.mul kPerBlock kpack) (inputLen d));
    split; intros; try discriminate; try reflexivity; lia.
Qed.

Lemma isCoherentWithK_exact d kpack kPerBlock :
  Int64.in_range (kPerBlock * kpack) ->
  (isCoherentWithK d kpack kPerBlock = true <->
   kPerBlock * kpack >= inputLen d).
Proof.
  intros Hr. rewrite isCoherentWithK_wrapped, (mul_exact _ _ Hr). lia.
Qed.

Lemma in_range_small z : -1000 <= z <= 1000 -> Int64.in_range z.
Proof. unfold Int64.in_range, Int64.min_signed, Int64.max_signed. lia. Qed.

(** C4, as the claim has it, fails where the 64-bit product wraps: with
    [kpack = kPerBlock = 2^32] the product is [2^64 >= 16], yet the
    [int64_t] product is 0 and the check answers [false]. *)
Lemma isCoherentWithK_wraps :
  ~ (isCoherentWithK f16_tile (2 ^ 32) (2 ^ 32) = true <->
     2 ^ 32 * 2 ^ 32 >= inputLen f16_tile).
Proof.
  intros [_ H].
  assert (E : isCoherentWithK f16_tile (2 ^ 32) (2 ^ 32) = false)
    by (vm_compute; reflexivity).
  rewrite E in H. discriminate H. vm_compute. discriminate.
Qed.

(** C4, amended. For every descriptor [d] and all [kpack] and [kPerBlock]
    whose product is a 64-bit signed integer, [isCoherentWithK] answers
    [true] exactly when [kPerBlock * kpack >= inputLen d]; with
    [inputLen = 16] it answers [true] when [kpack * kPerBlock = 16],
    [false] when [kpack * kPerBlock = 15], and [false] on [kpack = 2],
    [kPerBlock = 4]. *)
Theorem isCoherentWithK_iff :
  forall d : WmmaInsn,
    (forall kpack kPerBlock : Z,
       Int64.in_range (kPerBlock * kpack) ->
       (isCoherentWithK d kpack kPerBlock = true <->
        kPerBlock * kpack >= inputLen d)) /\
    (inputLen d = 16 ->
     (forall kpack kPerBlock : Z,
        kpack * kPerBlock = 16 -> isCoherentWithK d kpack kPerBlock = true) /\
     (forall kpack kPerBlock : Z,
        kpack * kPerBlock = 15 -> isCoherentWithK d kpack kPerBlock = false) /\
     isCoherentWithK d 2 4 = false).
Proof.
  intros d. split; [apply isCoherentWithK_exact |].
  intros H16. repeat split.
  - intros kpack kPerBlock E.
    apply isCoherentWithK_exact; [apply in_range_small |]; lia.
  - intros kpack kPerBlock E.
    destruct (isCoherentWithK d kpack kPerBlock) eqn:Eb; [| reflexivity].
    apply isCoherentWithK_exact in Eb; [| apply in_range_small]; lia.
  - destruct (isCoherentWithK d 2 4) eqn:Eb; [| reflexivity].
    apply isCoherentWithK_exact in Eb; [| apply in_range_small]; lia.
Qed.

Lemma isCoherentWithK_iff_witness :
  isCoherentWithK f16_tile 4 4 = true /\
  isCoherentWithK f16_tile 5 3 = false /\
  isCoherentWithK f16_tile 8 4 = true.
Proof.
  split; [| split].
  - exact (proj1 (proj2 (isCoherentWithK_iff f16_tile) eq_refl) 4 4 eq_refl).
  - exact (proj1 (proj2 (proj2 (isCoherentWithK_iff f16_tile) eq_refl))
             5 3 eq_refl).
  - refine (proj2 (proj1 (isCoherentWithK_iff f16_tile) 8 4 _) _).
    + apply in_range_small. lia.
    + vm_compute. discriminate.
Defined.

End WmmaInsnGroupFacts.

(** ** The C API *)

Module RockCAPIFacts.
Import RockCAPI.

Local Open Scope N_scope.

(** *** [strncpy] *)

Lemma store_same m p c : store m p c p = c.
Proof. unfold store. now rewrite N.eqb_refl. Qed.

Lemma store_other m p c q : q <> p -> store m p c q = m q.
Proof. unfold store. intros H. apply N.eqb_neq in H. now rewrite H. Qed.

Lemma zero_fill_outside n : forall m dest a,
  a < dest \/ dest + N.of_nat n <= a -> zero_fill m dest n a = m a.
Proof.
  induction n as [| n IH]; intros m dest a H; simpl; [reflexivity |].
  rewrite IH by lia. apply store_other. lia.
Qed.

Lemma zero_fill_inside n : forall m dest i,
  i < N.of_nat n -> zero_fill m dest n (dest + i) = x00.
Proof.
  induction n as [| n IH]; intros m dest i H; simpl; [lia |].
  destruct (N.eq_dec i 0) as [-> | Hi].
  - rewrite N.add_0_r, zero_fill_outside by lia. apply store_same.
  - replace (dest + i) with (dest + 1 + (i - 1)) by lia.
    apply IH. lia.
Qed.

(** [strncpy] writes inside [dest, dest + n) only. *)
Lemma strncpy_from_outside n : forall m dest src a,
  a < dest \/ dest + N.of_nat n <= a -> strncpy_from m dest src n a = m a.
Proof.
  induction n as [| n IH]; intros m dest src a H; [reflexivity |].
  cbn [strncpy_from].
  destruct src as [| c src]; [now apply zero_fill_outside |].
  destruct (is_nul c); [now apply zero_fill_outside |].
  rewrite IH by lia. apply store_other. lia.
Qed.

(** The first [min n (strlen src)] bytes are those of the string. *)
Lemma strncpy_from_copied n : forall m dest src i,
  (i < n)%nat -> (i < strlen src)%nat ->
  strncpy_from m dest src n (dest + N.of_nat i) = nth i src x00.
Proof.
  induction n as [| n IH]; intros m dest src i Hn Hs; [lia |].
  cbn [strncpy_from].
  destruct src as [| c src]; [simpl in Hs; lia |].
  simpl in Hs. destruct (is_nul c); [lia |].
  destruct i as [| i].
  - rewrite N.add_0_r, strncpy_from_outside by lia. apply store_same.
  - replace (dest + N.of_nat (S i)) with (dest + 1 + N.of_nat i) by lia.
    simpl. apply IH; lia.
Qed.

(** The rest of the [n] bytes are NUL. *)
Lemma strncpy_from_padded n : forall m dest src i,
  (strlen src <= i < n)%nat ->
  strncpy_from m dest src n (dest + N.of_nat i) = x00.
Proof.
  induction n as [| n IH]; intros m dest src i H; [lia |].
  cbn [strncpy_from].
  destruct src as [| c src]; [apply zero_fill_inside; lia |].
  simpl in H. destruct (is_nul c); [apply zero_fill_inside; lia |].
  destruct i as [| i]; [lia |].
  replace (dest + N.of_nat (S i)) with (dest + 1 + N.of_nat i) by lia.
  apply IH. lia.
Qed.

(** What a call [strncpy(buf, s.c_str(), bufLen)] leaves in memory. *)
Lemma strncpy_contract m buf s bufLen :
  (forall a, a < buf \/ buf + bufLen <= a ->
             strncpy m buf s bufLen a = m a) /\
  (forall i, i < bufLen -> i < N.of_nat (strlen s) ->
             strncpy m buf s bufLen (buf + i) = nth (N.to_nat i) s x00) /\
  (forall i, i < bufLen -> N.of_nat (strlen s) <= i ->
             strncpy m buf s bufLen (buf + i) = x00).
Proof.
  unfold strncpy. repeat split.
  - intros a H. apply strncpy_from_outside. lia.
  - intros i H1 H2. rewrite <- (N2Nat.id i) at 1.
    apply strncpy_from_copied; lia.
  - intros i H1 H2. rewrite <- (N2Nat.id i).
    apply strncpy_from_padded; lia.
Qed.

(** *** The last visited function *)

Section WalkFunc.

Context {A : Type} (p : A -> bool).

Lemma fold_step_none l : forall init,
  filter p l = [] ->
  fold_left (fun acc x => if p x then Some x else acc) l init = init.
Proof.
  induction l as [| x l IH]; intros init H; simpl in *; [reflexivity |].
  destruct (p x); [discriminate | now apply IH].
Qed.

Lemma fold_step_single l : forall init f,
  filter p l = [f] ->
  fold_left (fun acc x => if p x then Some x else acc) l init = Some f.
Proof.
  induction l as [| x l IH]; intros init f H; simpl in *; [discriminate |].
  destruct (p x).
  - injection H as -> Hl. now apply fold_step_none.
  - now apply IH.
Qed.

End WalkFunc.

Section CAPIFacts.

Variable ParamEntry : Type.
Variable getPerfConfigStr : ParamEntry -> list byte.
Variable Attribute : Type.
Variable PrefillAttr : Type.
Variable getArgIndex : PrefillAttr -> size_t.
Variable getInitValue : PrefillAttr -> Attribute.
Variable getTuningProblemStr : ModuleOp Attribute -> option (list byte).
Variable isSplitKFaster : Z -> Z -> Z -> Z -> Z ->
  RocmlirSplitKSelectionLikelihood.
Variable getStoredPrefillAttributes :
  Operation Attribute -> list PrefillAttr.

Lemma walkFunc_none (module : ModuleOp Attribute) :
  llvmFuncOps module = [] -> walkFunc module = None.
Proof. intros H. unfold walkFunc. now apply fold_step_none. Qed.

Lemma walkFunc_single (module : ModuleOp Attribute) func :
  llvmFuncOps module = [func] -> walkFunc module = Some func.
Proof. intros H. unfold walkFunc. now apply fold_step_single. Qed.

(** The loop, entered at [i] with [count] iterations to go and all of
    them inside [attrs]: it ends, the entries [i .. i + count - 1] hold
    the attributes of the same positions, every other entry is as
    before. *)
Lemma fillPrefill_spec attrs count : forall i out,
  (N.to_nat i + count <= List.length attrs)%nat ->
  exists out',
    fillPrefill getArgIndex getInitValue attrs count i out = Some out' /\
    (forall j, i <= j < i + N.of_nat count ->
       exists a, nth_error attrs (N.to_nat j) = Some a /\
                 indices out' j = getArgIndex a /\
                 initValues out' j = getInitValue a) /\
    (forall j, j < i \/ i + N.of_nat count <= j ->
       indices out' j = indices out j /\
       initValues out' j = initValues out j).
Proof.
  induction count as [| count IH]; intros i out Hlen.
  - exists out. repeat split; intros; lia.
  - cbn [fillPrefill].
    destruct (nth_error attrs (N.to_nat i)) as [a |] eqn:Ea.
    2: { apply nth_error_None in Ea. lia. }
    destruct (IH (i + 1)
                (mkPrefillArrays (update (indices out) i (getArgIndex a))
                   (update (initValues out) i (getInitValue a))))
      as (out' & Hrun & Hin & Hout); [lia |].
    exists out'. split; [exact Hrun | split].
    + intros j Hj. destruct (N.eq_dec j i) as [-> | Hne].
      * exists a. split; [exact Ea |].
        destruct (Hout i) as [Hi Hv]; [lia |].
        rewrite Hi, Hv. cbn [indices initValues]. unfold update.
        now rewrite N.eqb_refl.
      * apply Hin. lia.
    + intros j Hj. destruct (Hout j) as [Hi Hv]; [lia |].
      rewrite Hi, Hv. cbn [indices initValues]. unfold update.
      assert (E : (j =? i) = false) by (apply N.eqb_neq; lia).
      now rewrite E.
Qed.

(** C5. At the Quick tuning level the split-K classifier answers [never]
    for all [gDim], [mDim], [nDim], [kDim] and [numCUs], and makes no call
    to the dimension-based heuristic [rock::isSplitKFaster]. *)
Theorem splitK_quick_never :
  forall gDim mDim nDim kDim numCUs : Z,
    mlirIsSplitKFaster isSplitKFaster gDim mDim nDim kDim numCUs
      RocmlirTuningParamSetKindQuick = ([], never).
Proof. reflexivity. Qed.

(** At the two other levels the answer is the heuristic's, asked once. *)
Lemma splitK_other_levels gDim mDim nDim kDim numCUs tuningLevel :
  tuningLevel <> RocmlirTuningParamSetKindQuick ->
  mlirIsSplitKFaster isSplitKFaster gDim mDim nDim kDim numCUs tuningLevel =
  ([Call_isSplitKFaster gDim mDim nDim kDim numCUs],
   isSplitKFaster gDim mDim nDim kDim numCUs).
Proof. destruct tuningLevel; [contradiction | reflexivity | reflexivity]. Qed.

(** C6. [mlirRockTuningParamToString] returns the length of the
    perf-config string whatever [bufLen] is, larger or smaller; it changes
    no byte outside [buf[0 .. bufLen)], and the bytes of the string that
    fit are in the buffer in order.  [mlirRockTuningGetKey] does the same
    with the problem string whenever [getTuningProblemStr] succeeds. *)
Theorem tuning_strings_buffer_contract :
  forall (param : ParamEntry) (module : ModuleOp Attribute)
         (mem : Memory) (buf : N) (bufLen : size_t),
    (let s := getPerfConfigStr param in
     let (len, mem') :=
       mlirRockTuningParamToString getPerfConfigStr param mem buf bufLen in
     len = size s /\
     (forall a, a < buf \/ buf + bufLen <= a -> mem' a = mem a) /\
     (forall i, i < bufLen -> i < N.of_nat (strlen s) ->
                mem' (buf + i) = nth (N.to_nat i) s x00)) /\
    (forall s, getTuningProblemStr module = Some s ->
     let (len, mem') :=
       mlirRockTuningGetKey getTuningProblemStr module mem buf bufLen in
     len = size s /\
     (forall a, a < buf \/ buf + bufLen <= a -> mem' a = mem a) /\
     (forall i, i < bufLen -> i < N.of_nat (strlen s) ->
                mem' (buf + i) = nth (N.to_nat i) s x00)).
Proof.
  intros param module mem buf bufLen. split.
  - unfold mlirRockTuningParamToString. cbv zeta.
    destruct (strncpy_contract mem buf (getPerfConfigStr param) bufLen)
      as (Hout & Hin & _).
    split; [reflexivity | split; assumption].
  - intros s Hs. unfold mlirRockTuningGetKey. rewrite Hs.
    destruct (strncpy_contract mem buf s bufLen) as (Hout & Hin & _).
    split; [reflexivity | split; assumption].
Qed.

(** C7. On a module whose one [llvm.func] carries the stored prefill
    attributes [attrs], and for [length] at most the count that
    [mlirGetNumPrefillArgs] returns, [mlirGetPrefillArgsInfo] ends
    normally, entry [i] of both arrays holds the argument index and the
    initial value of [attrs[i]] for every [i < length], and the entries
    from [length] on are untouched. *)
Theorem prefill_info_fills_prefix :
  forall (module : ModuleOp Attribute) (func : Operation Attribute)
         (out : PrefillArrays Attribute) (length : size_t),
    llvmFuncOps module = [func] ->
    length <= mlirGetNumPrefillArgs getStoredPrefillAttributes module ->
    exists out',
      mlirGetPrefillArgsInfo getArgIndex getInitValue
        getStoredPrefillAttributes module out length = Some out' /\
      (forall i, i < length ->
         exists a,
           nth_error (getStoredPrefillAttributes func) (N.to_nat i)
             = Some a /\
           indices out' i = getArgIndex a /\
           initValues out' i = getInitValue a) /\
      (forall i, length <= i ->
         indices out' i = indices out i /\
         initValues out' i = initValues out i).
Proof.
  intros module func out length Hfunc Hlen.
  unfold mlirGetNumPrefillArgs in Hlen.
  unfold mlirGetPrefillArgsInfo.
  rewrite (walkFunc_single _ _ Hfunc) in *. cbv zeta.
  assert (E : (N.of_nat (List.length (getStoredPrefillAttributes func))
               <? length) = false) by (apply N.ltb_ge; exact Hlen).
  rewrite E.
  destruct (fillPrefill_spec (getStoredPrefillAttributes func)
              (N.to_nat length) 0 out)
    as (out' & Hrun & Hin & Hout); [lia |].
  exists out'. split; [exact Hrun | split].
  - intros i Hi. apply Hin. lia.
  - intros i Hi. apply Hout. lia.
Qed.

(** A [length] beyond the stored attributes stops at the assertion. *)
Lemma prefill_info_length_too_large
    (module : ModuleOp Attribute) func out length :
  llvmFuncOps module = [func] ->
  mlirGetNumPrefillArgs getStoredPrefillAttributes module < length ->
  mlirGetPrefillArgsInfo getArgIndex getInitValue
    getStoredPrefillAttributes module out length = None.
Proof.
  intros Hfunc Hlen.
  unfold mlirGetNumPrefillArgs in Hlen. unfold mlirGetPrefillArgsInfo.
  rewrite (walkFunc_single _ _ Hfunc) in *. cbv zeta.
  apply N.ltb_lt in Hlen. now rewrite Hlen.
Qed.

(** C10. On a module with no [llvm.func], [mlirGetNumPrefillArgs]
    returns 0 and [mlirGetPrefillArgsInfo] returns with both arrays as
    they were, for every [length]. *)
Theorem prefill_queries_without_function :
  forall (module : ModuleOp Attribute) (out : PrefillArrays Attribute)
         (length : size_t),
    llvmFuncOps module = [] ->
    mlirGetNumPrefillArgs getStoredPrefillAttributes module = 0 /\
    mlirGetPrefillArgsInfo getArgIndex getInitValue
      getStoredPrefillAttributes module out length = Some out.
Proof.
  intros module out length Hnone.
  unfold mlirGetNumPrefillArgs, mlirGetPrefillArgsInfo.
  rewrite (walkFunc_none _ Hnone). split; reflexivity.
Qed.

End CAPIFacts.

Lemma tuning_strings_buffer_contract_witness :
  let (len, mem') :=
    mlirRockTuningGetKey (fun _ => Some exampleKey) exampleHostModule
      exampleMemory 100 8 in
  len = 37 /\
  (forall a, a < 100 \/ 100 + 8 <= a -> mem' a = "?"%byte) /\
  (forall i, i < 8 -> i < N.of_nat (strlen exampleKey) ->
             mem' (100 + i) = nth (N.to_nat i) exampleKey x00).
Proof.
  exact (proj2 (tuning_strings_buffer_contract unit (fun _ => examplePerfConfig)
                  Z (fun _ => Some exampleKey) tt exampleHostModule
                  exampleMemory 100 8)
           exampleKey eq_refl).
Defined.

Lemma prefill_info_fills_prefix_witness :
  exists out',
    mlirGetPrefillArgsInfo fst snd examplePrefill exampleKernelModule
      exampleArrays 1 = Some out' /\
    (forall i, i < 1 ->
       exists a,
         nth_error [(1, 0%Z); (3, 255%Z)] (N.to_nat i) = Some a /\
         indices out' i = fst a /\ initValues out' i = snd a) /\
    (forall i, 1 <= i ->
       indices out' i = 77 /\ initValues out' i = (-1)%Z).
Proof.
  refine (prefill_info_fills_prefix Z (N * Z)%type fst snd examplePrefill
            exampleKernelModule
            (mkOperation "llvm.func" []
               [[[mkOperation "llvm.return" [] []]]])
            exampleArrays 1 eq_refl _).
  vm_compute. discriminate.
Defined.

Lemma prefill_queries_without_function_witness :
  mlirGetNumPrefillArgs examplePrefill exampleHostModule = 0 /\
  mlirGetPrefillArgsInfo fst snd examplePrefill exampleHostModule
    exampleArrays 5 = Some exampleArrays.
Proof.
  exact (prefill_queries_without_function Z (N * Z)%type fst snd
           examplePrefill exampleHostModule exampleArrays 5 eq_refl).
Defined.

End RockCAPIFacts.

(** * Further properties of instruction selection *)

Module SelectProperties.
Import WmmaInsnGroup Int64Facts WmmaInsnGroupFacts.

(** X1. [select] succeeds exactly when the operand types are equal and
    supported, the wave size is 32 and 16 divides both tile sizes. *)
Theorem select_succeeds_iff :
  forall (names : ROCDLOp -> StringRef) (a b : ElemType) (w m n : Z),
    (exists d, select names a b w m n = Some d) <->
    a = b /\ supported a = true /\ w = 32 /\ (16 | m) /\ (16 | n).
Proof.
  intros names a b w m n. split.
  - intros [d Hd]. apply select_Some_inv in Hd.
    destruct Hd as (Hab & Hw & Hm & Hn & _ & Hty).
    repeat split; try assumption; try now apply rem_16_divide.
    unfold supported.
    destruct Hty as [[-> _] | [[-> _] | [[s ->] _]]]; reflexivity.
  - intros (<- & Ha & -> & Hm & Hn).
    apply rem_16_divide in Hm, Hn.
    destruct (supported_cases a Ha) as [-> | [-> | [s ->]]]; eexists.
    + now apply select_f16.
    + now apply select_bf16.
    + now apply select_int8.
Qed.

(** X2. The repeats of a returned descriptor cover the requested tile
    exactly: [inputLen * mRepeats = mPerWave] and
    [inputLen * nRepeats = nPerWave]. *)
Theorem select_covers_tile :
  forall (names : ROCDLOp -> StringRef) (a b : ElemType) (w m n : Z)
         (d : WmmaInsn),
    select names a b w m n = Some d ->
    inputLen d * mRepeats d = m /\ inputLen d * nRepeats d = n.
Proof.
  intros names a b w m n d Hd. apply select_Some_inv in Hd.
  destruct Hd as (_ & _ & Hm & Hn & -> & _).
  unfold descriptor. cbn [inputLen mRepeats nRepeats].
  pose proof (Z.quot_rem' m 16). pose proof (Z.quot_rem' n 16). lia.
Qed.

Lemma select_covers_tile_witness :
  inputLen f16_tile * mRepeats f16_tile = 16 /\
  inputLen f16_tile * nRepeats f16_tile = 16.
Proof.
  exact (select_covers_tile rocdlOperationName f16 f16 32 16 16 f16_tile
           eq_refl).
Defined.

(** X3. On 64-bit tile sizes nothing in [select] overflows: the repeats
    of a returned descriptor are 64-bit integers, no larger in absolute
    value than the tile sizes. *)
Theorem select_repeats_in_range :
  forall (names : ROCDLOp -> StringRef) (a b : ElemType) (w m n : Z)
         (d : WmmaInsn),
    Int64.in_range m -> Int64.in_range n ->
    select names a b w m n = Some d ->
    Int64.in_range (mRepeats d) /\ Int64.in_range (nRepeats d) /\
    Z.abs (mRepeats d) <= Z.abs m /\ Z.abs (nRepeats d) <= Z.abs n.
Proof.
  intros names a b w m n d Rm Rn Hd. apply select_Some_inv in Hd.
  destruct Hd as (_ & _ & Hm & Hn & -> & _).
  unfold descriptor. cbn [mRepeats nRepeats].
  pose proof (Z.quot_rem' m 16). pose proof (Z.quot_rem' n 16).
  repeat split; try (now apply quot_16_in_range); lia.
Qed.

Lemma select_repeats_in_range_witness :
  Int64.in_range (mRepeats f16_tile) /\ Int64.in_range (nRepeats f16_tile) /\
  Z.abs (mRepeats f16_tile) <= Z.abs 16 /\
  Z.abs (nRepeats f16_tile) <= Z.abs 16.
Proof.
  refine (select_repeats_in_range rocdlOperationName f16 f16 32 16 16
            f16_tile _ _ eq_refl);
    apply in_range_small; lia.
Defined.

(** X4. The order of the two operand types does not matter. *)
Theorem select_operand_symmetry :
  forall (names : ROCDLOp -> StringRef) (a b : ElemType) (w m n : Z),
    select names a b w m n = select names b a w m n.
Proof.
  intros names a b w m n.
  destruct (ElemType_eqb a b) eqn:E.
  - apply ElemType_eqb_eq in E. now subst.
  - assert (a <> b) by (intros ->; now rewrite ElemType_eqb_refl in E).
    rewrite !select_type_mismatch; auto.
Qed.

(** X5. For a descriptor [select] returned, the K-coherence check is a
    threshold at 16: on a product that fits 64 bits it answers [true]
    exactly when [kPerBlock * kpack >= 16].  The product need not be a
    multiple of 16: 17 passes. *)
Theorem selected_insn_K_threshold :
  forall (names : ROCDLOp -> StringRef) (a b : ElemType) (w m n : Z)
         (d : WmmaInsn) (kpack kPerBlock : Z),
    select names a b w m n = Some d ->
    Int64.in_range (kPerBlock * kpack) ->
    (isCoherentWithK d kpack kPerBlock = true <-> 16 <= kPerBlock * kpack) /\
    isCoherentWithK d 17 1 = true /\ ~ (inputLen d | 1 * 17).
Proof.
  intros names a b w m n d kpack kPerBlock Hd Hr.
  apply select_Some_inv in Hd. destruct Hd as (_ & _ & _ & _ & -> & _).
  split; [| split].
  - rewrite (isCoherentWithK_exact _ _ _ Hr). cbn [descriptor inputLen]. lia.
  - reflexivity.
  - cbn [descriptor inputLen]. intros [k Hk]. lia.
Qed.

Lemma selected_insn_K_threshold_witness :
  (isCoherentWithK f16_tile 4 8 = true <-> 16 <= 8 * 4) /\
  isCoherentWithK f16_tile 17 1 = true /\ ~ (inputLen f16_tile | 1 * 17).
Proof.
  refine (selected_insn_K_threshold rocdlOperationName f16 f16 32 16 16
            f16_tile 4 8 eq_refl _).
  apply in_range_small. lia.
Defined.

(** X6. Raising non-negative [kpack] or [kPerBlock] keeps a coherent
    blocking coherent, as long as the product still fits 64 bits. *)
Theorem isCoherentWithK_monotone :
  forall (d : WmmaInsn) (kpack kPerBlock kpack' kPerBlock' : Z),
    0 <= kpack <= kpack' -> 0 <= kPerBlock <= kPerBlock' ->
    Int64.in_range (kPerBlock' * kpack') ->
    isCoherentWithK d kpack kPerBlock = true ->
    isCoherentWithK d kpack' kPerBlock' = true.
Proof.
  intros d kpack kPerBlock kpack' kPerBlock' Hk Hb Hr Hc.
  assert (Hle : 0 <= kPerBlock * kpack <= kPerBlock' * kpack') by nia.
  assert (Hr0 : Int64.in_range (kPerBlock * kpack)).
  { unfold Int64.in_range, Int64.min_signed, Int64.max_signed in *. lia. }
  apply (isCoherentWithK_exact _ _ _ Hr0) in Hc.
  apply (isCoherentWithK_exact _ _ _ Hr). lia.
Qed.

Lemma isCoherentWithK_monotone_witness :
  isCoherentWithK f16_tile 8 4 = true.
Proof.
  refine (isCoherentWithK_monotone f16_tile 4 4 8 4 _ _ _ eq_refl).
  - lia.
  - lia.
  - apply in_range_small. lia.
Defined.

End SelectProperties.

(** * Further properties of the string queries *)

Module BufferProperties.
Import RockCAPI RockCAPIFacts.

Local Open Scope N_scope.

Lemma load_zero_fill n : forall m dest,
  load (zero_fill m dest n) dest n = repeat x00 n.
Proof.
  induction n as [| n IH]; intros m dest; [reflexivity |].
  cbn [zero_fill load repeat]. f_equal; [| apply IH].
  rewrite zero_fill_outside by lia. apply store_same.
Qed.

(** What [strncpy] leaves in the [n] bytes it was given: the string up to
    its first NUL, cut to [n] bytes, then NULs. *)
Lemma load_strncpy_from n : forall m dest src,
  load (strncpy_from m dest src n) dest n =
  firstn n (firstn (strlen src) src) ++ repeat x00 (n - strlen src).
Proof.
  induction n as [| n IH]; intros m dest src; [reflexivity |].
  destruct src as [| c src].
  - cbn [strncpy_from]. rewrite load_zero_fill. reflexivity.
  - cbn [strncpy_from strlen]. destruct (is_nul c).
    + rewrite load_zero_fill. reflexivity.
    + cbn [load firstn app Nat.sub]. f_equal; [| apply IH].
      rewrite strncpy_from_outside by lia. apply store_same.
Qed.

Lemma strlen_no_nul s : no_nul s = true -> strlen s = List.length s.
Proof.
  induction s as [| c s IH]; [reflexivity |].
  unfold no_nul. cbn [forallb strlen List.length].
  rewrite andb_true_iff, negb_true_iff. intros [-> Hs].
  f_equal. now apply IH.
Qed.

Lemma no_nul_firstn s : forall n, no_nul s = true -> no_nul (firstn n s) = true.
Proof.
  unfold no_nul. induction s as [| c s IH]; intros [| n] H;
    try reflexivity.
  cbn [firstn forallb] in *. apply andb_true_iff in H. destruct H as [Hc Hs].
  rewrite Hc. now apply IH.
Qed.

Lemma strncpy_no_nul m buf s n :
  no_nul s = true ->
  load (strncpy m buf s n) buf (N.to_nat n) =
  firstn (N.to_nat n) s ++ repeat x00 (N.to_nat n - List.length s).
Proof.
  intros Hs. unfold strncpy.
  rewrite load_strncpy_from, (strlen_no_nul s Hs), firstn_all. reflexivity.
Qed.

(** A string that is shorter than the buffer arrives whole, followed by
    NULs to the end of the buffer. *)
Lemma strncpy_fits m buf s n :
  no_nul s = true -> size s < n ->
  load (strncpy m buf s n) buf (N.to_nat n) =
  s ++ repeat x00 (N.to_nat n - List.length s).
Proof.
  intros Hs Hn. rewrite (strncpy_no_nul _ _ _ _ Hs).
  unfold size in Hn. rewrite firstn_all2 by lia. reflexivity.
Qed.

(** A string that is at least as long as the buffer fills it, and no NUL
    is written. *)
Lemma strncpy_cut m buf s n :
  no_nul s = true -> n <= size s ->
  load (strncpy m buf s n) buf (N.to_nat n) = firstn (N.to_nat n) s.
Proof.
  intros Hs Hn. rewrite (strncpy_no_nul _ _ _ _ Hs).
  unfold size in Hn.
  replace (N.to_nat n - List.length s)%nat with 0%nat by lia.
  apply app_nil_r.
Qed.

Section StringQueries.

Variable ParamEntry : Type.
Variable getPerfConfigStr : ParamEntry -> list byte.
Variable Attribute : Type.
Variable getTuningProblemStr : ModuleOp Attribute -> option (list byte).

(** X7. A NUL-free string shorter than [bufLen] is in the buffer whole
    and NUL-terminated after either query: the buffer holds the string,
    then NULs up to [bufLen]. *)
Theorem short_string_arrives_terminated :
  forall (param : ParamEntry) (module : ModuleOp Attribute)
         (mem : Memory) (buf : N) (bufLen : size_t),
    (let s := getPerfConfigStr param in
     no_nul s = true -> size s < bufLen ->
     load (snd (mlirRockTuningParamToString getPerfConfigStr param mem buf
                  bufLen)) buf (N.to_nat bufLen) =
     s ++ repeat x00 (N.to_nat bufLen - List.length s)) /\
    (forall s, getTuningProblemStr module = Some s ->
     no_nul s = true -> size s < bufLen ->
     load (snd (mlirRockTuningGetKey getTuningProblemStr module mem buf
                  bufLen)) buf (N.to_nat bufLen) =
     s ++ repeat x00 (N.to_nat bufLen - List.length s)).
Proof.
  intros param module mem buf bufLen. split.
  - cbv zeta. intros Hs Hn. now apply strncpy_fits.
  - intros s Hkey Hs Hn. unfold mlirRockTuningGetKey. rewrite Hkey.
    now apply strncpy_fits.
Qed.

(** X8. A NUL-free string of [bufLen] characters or more leaves the
    buffer full of its first [bufLen] characters and without a NUL; this
    includes the string of exactly [bufLen] characters, on which the
    returned length does not exceed [bufLen]. *)
Theorem long_string_arrives_unterminated :
  forall (param : ParamEntry) (module : ModuleOp Attribute)
         (mem : Memory) (buf : N) (bufLen : size_t),
    (let s := getPerfConfigStr param in
     let r := mlirRockTuningParamToString getPerfConfigStr param mem buf
                bufLen in
     no_nul s = true -> bufLen <= size s ->
     load (snd r) buf (N.to_nat bufLen) = firstn (N.to_nat bufLen) s /\
     no_nul (load (snd r) buf (N.to_nat bufLen)) = true /\
     (size s = bufLen -> fst r = bufLen)) /\
    (forall s, getTuningProblemStr module = Some s ->
     let r := mlirRockTuningGetKey getTuningProblemStr module mem buf
                bufLen in
     no_nul s = true -> bufLen <= size s ->
     load (snd r) buf (N.to_nat bufLen) = firstn (N.to_nat bufLen) s /\
     no_nul (load (snd r) buf (N.to_nat bufLen)) = true /\
     (size s = bufLen -> fst r = bufLen)).
Proof.
  intros param module mem buf bufLen. split.
  - cbv zeta. intros Hs Hn.
    unfold mlirRockTuningParamToString. cbn [fst snd].
    rewrite (strncpy_cut _ _ _ _ Hs Hn).
    repeat split; [now apply no_nul_firstn | auto].
  - intros s Hkey. cbv zeta. intros Hs Hn.
    unfold mlirRockTuningGetKey. rewrite Hkey. cbn [fst snd].
    rewrite (strncpy_cut _ _ _ _ Hs Hn).
    repeat split; [now apply no_nul_firstn | auto].
Qed.

(** X9. Either query overwrites all of [buf[0 .. bufLen)]: what the
    buffer holds afterwards does not depend on what it held before. *)
Theorem buffer_fully_overwritten :
  forall (param : ParamEntry) (module : ModuleOp Attribute)
         (mem1 mem2 : Memory) (buf : N) (bufLen : size_t),
    load (snd (mlirRockTuningParamToString getPerfConfigStr param mem1 buf
                 bufLen)) buf (N.to_nat bufLen) =
    load (snd (mlirRockTuningParamToString getPerfConfigStr param mem2 buf
                 bufLen)) buf (N.to_nat bufLen) /\
    (getTuningProblemStr module <> None ->
     load (snd (mlirRockTuningGetKey getTuningProblemStr module mem1 buf
                  bufLen)) buf (N.to_nat bufLen) =
     load (snd (mlirRockTuningGetKey getTuningProblemStr module mem2 buf
                  bufLen)) buf (N.to_nat bufLen)).
Proof.
  intros param module mem1 mem2 buf bufLen. split.
  - unfold mlirRockTuningParamToString, strncpy. cbn [snd].
    now rewrite !load_strncpy_from.
  - unfold mlirRockTuningGetKey.
    destruct (getTuningProblemStr module) as [s |]; [| congruence].
    intros _. unfold strncpy. cbn [snd]. now rewrite !load_strncpy_from.
Qed.

(** X10. With [bufLen = 0] either query is a pure length query: no byte
    of memory changes, and the serializer still returns the length of the
    string. *)
Theorem zero_capacity_is_length_query :
  forall (param : ParamEntry) (module : ModuleOp Attribute)
         (mem : Memory) (buf : N),
    mlirRockTuningParamToString getPerfConfigStr param mem buf 0 =
      (size (getPerfConfigStr param), mem) /\
    snd (mlirRockTuningGetKey getTuningProblemStr module mem buf 0) = mem /\
    (forall s, getTuningProblemStr module = Some s ->
       fst (mlirRockTuningGetKey getTuningProblemStr module mem buf 0)
       = size s).
Proof.
  intros param module mem buf. unfold mlirRockTuningGetKey.
  split; [reflexivity |].
  destruct (getTuningProblemStr module) as [s |]; split;
    try reflexivity; intros s' [= <-] || discriminate; reflexivity.
Qed.

(** X11. The retry a caller makes after a truncated answer works: a
    second call with [bufLen] one more than the returned length returns
    the same length and leaves the whole NUL-free string, then one NUL,
    in the buffer. *)
Theorem retry_with_returned_length :
  forall (param : ParamEntry) (mem : Memory) (buf : N) (bufLen : size_t),
    no_nul (getPerfConfigStr param) = true ->
    let first :=
      mlirRockTuningParamToString getPerfConfigStr param mem buf bufLen in
    let second :=
      mlirRockTuningParamToString getPerfConfigStr param (snd first) buf
        (fst first + 1) in
    fst second = fst first /\
    load (snd second) buf (N.to_nat (fst first + 1)) =
    getPerfConfigStr param ++ [x00].
Proof.
  intros param mem buf bufLen Hs. cbv zeta.
  unfold mlirRockTuningParamToString. cbn [fst snd].
  split; [reflexivity |].
  rewrite strncpy_fits by (assumption || lia).
  unfold size. f_equal.
  replace (N.to_nat (N.of_nat (List.length (getPerfConfigStr param)) + 1)
           - List.length (getPerfConfigStr param))%nat with 1%nat by lia.
  reflexivity.
Qed.

(** X12. A failure of [mlirRockTuningGetKey] can be told from a success:
    as long as no problem string has [SIZE_MAX] characters, the query
    returns [SIZE_MAX] exactly when [getTuningProblemStr] failed, and it
    then leaves memory as it was. *)
Theorem getKey_failure_is_distinct :
  forall (module : ModuleOp Attribute) (mem : Memory) (buf : N)
         (bufLen : size_t),
    (forall s, getTuningProblemStr module = Some s -> size s < SIZE_MAX) ->
    let r := mlirRockTuningGetKey getTuningProblemStr module mem buf bufLen in
    (fst r = SIZE_MAX <-> getTuningProblemStr module = None) /\
    (getTuningProblemStr module = None -> snd r = mem).
Proof.
  intros module mem buf bufLen Hsize. cbv zeta.
  unfold mlirRockTuningGetKey.
  destruct (getTuningProblemStr module) as [s |] eqn:E; cbn [fst snd].
  - specialize (Hsize s eq_refl). split; [| discriminate].
    split; [lia | discriminate].
  - split; [tauto | reflexivity].
Qed.

End StringQueries.

Lemma short_string_arrives_terminated_witness :
  load (snd (mlirRockTuningParamToString (fun _ : unit => examplePerfConfig)
               tt exampleMemory 100 30)) 100 30 =
  examplePerfConfig ++ repeat x00 6.
Proof.
  exact (proj1 (short_string_arrives_terminated unit
                  (fun _ => examplePerfConfig) Z (fun _ => Some exampleKey)
                  tt exampleHostModule exampleMemory 100 30)
           eq_refl eq_refl).
Defined.

Lemma long_string_arrives_unterminated_witness :
  let r := mlirRockTuningGetKey (fun _ => Some exampleKey) exampleHostModule
             exampleMemory 100 8 in
  load (snd r) 100 8 = firstn 8 exampleKey /\
  no_nul (load (snd r) 100 8) = true /\
  (size exampleKey = 8 -> fst r = 8).
Proof.
  refine (proj2 (long_string_arrives_unterminated unit
                   (fun _ => examplePerfConfig) Z (fun _ => Some exampleKey)
                   tt exampleHostModule exampleMemory 100 8)
            exampleKey eq_refl eq_refl _).
  vm_compute. discriminate.
Defined.

Lemma buffer_fully_overwritten_witness :
  load (snd (mlirRockTuningGetKey (fun _ => Some exampleKey)
               exampleHostModule exampleMemory 100 40)) 100 40 =
  load (snd (mlirRockTuningGetKey (fun _ => Some exampleKey)
               exampleHostModule (fun _ => x00) 100 40)) 100 40.
Proof.
  refine (proj2 (buffer_fully_overwritten unit (fun _ => examplePerfConfig)
                   Z (fun _ => Some exampleKey) tt exampleHostModule
                   exampleMemory (fun _ => x00) 100 40) _).
  discriminate.
Defined.

Lemma zero_capacity_is_length_query_witness :
  fst (mlirRockTuningGetKey (fun _ => Some exampleKey) exampleHostModule
         exampleMemory 100 0) = 37.
Proof.
  exact (proj2 (proj2 (zero_capacity_is_length_query unit
                         (fun _ => examplePerfConfig) Z
                         (fun _ => Some exampleKey) tt exampleHostModule
                         exampleMemory 100))
           exampleKey eq_refl).
Defined.

Lemma retry_with_returned_length_witness :
  let first :=
    mlirRockTuningParamToString (fun _ : unit => examplePerfConfig) tt
      exampleMemory 100 5 in
  let second :=
    mlirRockTuningParamToString (fun _ : unit => examplePerfConfig) tt
      (snd first) 100 (fst first + 1) in
  fst second = fst first /\
  load (snd second) 100 25 = examplePerfConfig ++ [x00].
Proof.
  exact (retry_with_returned_length unit (fun _ => examplePerfConfig) tt
           exampleMemory 100 5 eq_refl).
Defined.

Lemma getKey_failure_is_distinct_witness :
  let r := mlirRockTuningGetKey (fun _ => Some exampleKey) exampleHostModule
             exampleMemory 100 8 in
  (fst r = SIZE_MAX <-> Some exampleKey = None) /\
  (Some exampleKey = None -> snd r = exampleMemory).
Proof.
  refine (getKey_failure_is_distinct Z (fun _ => Some exampleKey)
            exampleHostModule exampleMemory 100 8 _).
  intros s [= <-]. vm_compute. reflexivity.
Defined.

End BufferProperties.

(** * Further properties of the prefill queries and of the space size *)

Module PrefillProperties.
Import RockCAPI RockCAPIFacts.

Local Open Scope N_scope.

Section LastVisited.

Context {A : Type} (p : A -> bool).

Lemma last_cons {B : Type} (x : B) l : forall d, last (x :: l) d = last l x.
Proof.
  revert x. induction l as [| y l IH]; intros x d; [reflexivity |].
  change (last (x :: y :: l) d) with (last (y :: l) d).
  rewrite !IH. reflexivity.
Qed.

(** The fold of the walk keeps the last element the callback fires on. *)
Lemma fold_step_last l : forall init,
  fold_left (fun acc x => if p x then Some x else acc) l init =
  last (map Some (filter p l)) init.
Proof.
  induction l as [| x l IH]; intros init; [reflexivity |].
  cbn [fold_left filter]. rewrite IH. destruct (p x); [| reflexivity].
  cbn [map]. now rewrite last_cons.
Qed.

Lemma last_map_Some (l : list A) x :
  last (map Some (l ++ [x])) None = Some x.
Proof. rewrite map_app. cbn [map]. apply last_last. Qed.

End LastVisited.

(** An operation that [top] contains is visited by the walk of [top]. *)
Lemma contains_walk {Attribute} (top op : Operation Attribute) :
  contains top op -> In op (walk top).
Proof.
  induction 1 as [op | name attrs regions region block child op
                         Hr Hb Hc _ IH].
  - destruct op. cbn [walk]. apply in_or_app. right. now left.
  - cbn [walk]. apply in_or_app. left.
    apply in_flat_map. exists region. split; [exact Hr |].
    apply in_flat_map. exists block. split; [exact Hb |].
    apply in_flat_map. exists child. split; [exact Hc | exact IH].
Qed.

Section PrefillFacts.

Variable Attribute : Type.
Variable PrefillAttr : Type.
Variable getArgIndex : PrefillAttr -> size_t.
Variable getInitValue : PrefillAttr -> Attribute.
Variable getStoredPrefillAttributes :
  Operation Attribute -> list PrefillAttr.

Lemma walkFunc_last (module : ModuleOp Attribute) fs f :
  llvmFuncOps module = fs ++ [f] -> walkFunc module = Some f.
Proof.
  intros H. unfold walkFunc. rewrite fold_step_last.
  unfold llvmFuncOps in H. rewrite H. apply last_map_Some.
Qed.

Lemma walkFunc_cases (module : ModuleOp Attribute) :
  (llvmFuncOps module = [] /\ walkFunc module = None) \/
  (exists fs f, llvmFuncOps module = fs ++ [f] /\ walkFunc module = Some f).
Proof.
  destruct (llvmFuncOps module) as [| g l] eqn:E using rev_ind.
  - left. split; [reflexivity | now apply walkFunc_none].
  - right. exists l, g. split; [reflexivity | now apply walkFunc_last with l].
Qed.

(** The info query on a module whose walk ends on [func]. *)
Lemma info_spec (module : ModuleOp Attribute) func out length :
  walkFunc module = Some func ->
  length <= N.of_nat (List.length (getStoredPrefillAttributes func)) ->
  exists out',
    mlirGetPrefillArgsInfo getArgIndex getInitValue
      getStoredPrefillAttributes module out length = Some out' /\
    (forall i, i < length ->
       exists a,
         nth_error (getStoredPrefillAttributes func) (N.to_nat i) = Some a /\
         indices out' i = getArgIndex a /\
         initValues out' i = getInitValue a) /\
    (forall i, length <= i ->
       indices out' i = indices out i /\
       initValues out' i = initValues out i).
Proof.
  intros Hfunc Hlen. unfold mlirGetPrefillArgsInfo. rewrite Hfunc. cbv zeta.
  apply N.ltb_ge in Hlen. rewrite Hlen. apply N.ltb_ge in Hlen.
  destruct (fillPrefill_spec Attribute PrefillAttr getArgIndex getInitValue
              (getStoredPrefillAttributes func) (N.to_nat length) 0 out)
    as (out' & Hrun & Hin & Hout); [lia |].
  exists out'. split; [exact Hrun | split].
  - intros i Hi. apply Hin. lia.
  - intros i Hi. apply Hout. lia.
Qed.

(** X13. When the walk meets several [llvm.func] operations, the last
    one it visits is the one both queries read: the count is the number
    of its stored attributes, and the info query fills the arrays from
    them. *)
Theorem last_function_wins :
  forall (module : ModuleOp Attribute)
         (fs : list (Operation Attribute)) (f : Operation Attribute)
         (out : PrefillArrays Attribute) (length : size_t),
    llvmFuncOps module = fs ++ [f] ->
    length <= N.of_nat (List.length (getStoredPrefillAttributes f)) ->
    mlirGetNumPrefillArgs getStoredPrefillAttributes module =
      N.of_nat (List.length (getStoredPrefillAttributes f)) /\
    exists out',
      mlirGetPrefillArgsInfo getArgIndex getInitValue
        getStoredPrefillAttributes module out length = Some out' /\
      forall i, i < length ->
        exists a,
          nth_error (getStoredPrefillAttributes f) (N.to_nat i) = Some a /\
          indices out' i = getArgIndex a /\
          initValues out' i = getInitValue a.
Proof.
  intros module fs f out length Hfs Hlen.
  pose proof (walkFunc_last module fs f Hfs) as Hf. split.
  - unfold mlirGetNumPrefillArgs. now rewrite Hf.
  - destruct (info_spec module f out length Hf Hlen)
      as (out' & Hrun & Hin & _).
    exists out'. split; assumption.
Qed.

(** X14. An [llvm.func] nested at any depth below a top-level operation
    of the module is found: the count query then returns the attribute
    count of an [llvm.func] that the walk visits. *)
Theorem nested_function_is_found :
  forall (module : ModuleOp Attribute) (top f : Operation Attribute),
    In top (getBody module) -> contains top f -> isLLVMFuncOp f = true ->
    exists g,
      In g (walkModule module) /\ isLLVMFuncOp g = true /\
      mlirGetNumPrefillArgs getStoredPrefillAttributes module =
        N.of_nat (List.length (getStoredPrefillAttributes g)).
Proof.
  intros module top f Htop Hf Hllvm.
  assert (Hin : In f (llvmFuncOps module)).
  { apply filter_In. split; [| exact Hllvm].
    apply in_flat_map. exists top. split; [exact Htop |].
    now apply contains_walk. }
  destruct (walkFunc_cases module) as [[Hnil _] | (fs & g & Hfs & Hg)].
  - rewrite Hnil in Hin. destruct Hin.
  - exists g.
    assert (Hg' : In g (llvmFuncOps module))
      by (rewrite Hfs; apply in_or_app; right; now left).
    apply filter_In in Hg'. destruct Hg' as [Hw Hp].
    repeat split; try assumption.
    unfold mlirGetNumPrefillArgs. now rewrite Hg.
Qed.

(** X15. The two-call protocol never trips the assertion: on every
    module, the info query called with the count the count query returned
    ends normally, leaves the entries from that count on untouched, and
    every entry below it holds an attribute of the function the walk
    ended on. *)
Theorem count_then_info_succeeds :
  forall (module : ModuleOp Attribute) (out : PrefillArrays Attribute),
    let count := mlirGetNumPrefillArgs getStoredPrefillAttributes module in
    exists out',
      mlirGetPrefillArgsInfo getArgIndex getInitValue
        getStoredPrefillAttributes module out count = Some out' /\
      (forall i, count <= i ->
         indices out' i = indices out i /\
         initValues out' i = initValues out i) /\
      (forall i, i < count ->
         exists func a,
           walkFunc module = Some func /\
           nth_error (getStoredPrefillAttributes func) (N.to_nat i)
             = Some a /\
           indices out' i = getArgIndex a /\
           initValues out' i = getInitValue a).
Proof.
  intros module out. cbv zeta.
  destruct (walkFunc module) as [func |] eqn:Hf.
  - unfold mlirGetNumPrefillArgs. rewrite Hf.
    destruct (info_spec module func out
                (N.of_nat (List.length (getStoredPrefillAttributes func)))
                Hf (N.le_refl _))
      as (out' & Hrun & Hin & Hout).
    exists out'. split; [exact Hrun | split; [exact Hout |]].
    intros i Hi. destruct (Hin i Hi) as (a & Ha).
    exists func, a. split; [reflexivity | exact Ha].
  - unfold mlirGetNumPrefillArgs, mlirGetPrefillArgsInfo. rewrite Hf.
    exists out. split; [reflexivity | split].
    + intros; split; reflexivity.
    + intros i Hi. lia.
Qed.

(** X16. With [length = 0] the info query returns normally and writes
    nothing, on every module. *)
Theorem zero_length_writes_nothing :
  forall (module : ModuleOp Attribute) (out : PrefillArrays Attribute),
    mlirGetPrefillArgsInfo getArgIndex getInitValue
      getStoredPrefillAttributes module out 0 = Some out.
Proof.
  intros module out. unfold mlirGetPrefillArgsInfo.
  destruct (walkFunc module) as [func |]; [| reflexivity].
  cbv zeta.
  assert (E : (N.of_nat (List.length (getStoredPrefillAttributes func))
               <? 0) = false) by (apply N.ltb_ge; lia).
  rewrite E. reflexivity.
Qed.


End PrefillFacts.

Lemma last_function_wins_witness :
  mlirGetNumPrefillArgs exampleStored exampleNestedModule = 1 /\
  exists out',
    mlirGetPrefillArgsInfo fst snd exampleStored exampleNestedModule
      exampleArrays 1 = Some out' /\
    forall i, i < 1 ->
      exists a, nth_error [(3, 2%Z)] (N.to_nat i) = Some a /\
                indices out' i = fst a /\ initValues out' i = snd a.
Proof.
  refine (last_function_wins Z (N * Z)%type fst snd exampleStored
            exampleNestedModule [exampleOuterFunc] exampleInnerFunc
            exampleArrays 1 eq_refl _).
  vm_compute. discriminate.
Defined.

Lemma nested_function_is_found_witness :
  exists g : Operation Z,
    In g (walkModule exampleNestedModule) /\ isLLVMFuncOp g = true /\
    mlirGetNumPrefillArgs exampleStored exampleNestedModule =
      N.of_nat (List.length (exampleStored g)).
Proof.
  refine (nested_function_is_found Z (N * Z)%type exampleStored
            exampleNestedModule exampleGpuModule exampleInnerFunc
            (or_intror (or_introl eq_refl)) _ eq_refl).
  eapply contains_nested;
    [left; reflexivity | left; reflexivity | left; reflexivity |].
  apply contains_self.
Defined.


(** X18. The size of a tuning space is returned through a 32-bit
    [unsigned]: the result is always below [2^32], and it is the number of
    candidates whenever that number is below [2^32]. *)
Theorem num_params_exact_below_2_32 :
  forall (Candidate : Type) (params : TuningParamSet Candidate),
    mlirRockTuningGetNumParams params < 2 ^ 32 /\
    (N.of_nat (List.length (tuningRange params)) < 2 ^ 32 ->
     mlirRockTuningGetNumParams params =
     N.of_nat (List.length (tuningRange params))).
Proof.
  intros Candidate params. unfold mlirRockTuningGetNumParams. split.
  - apply N.mod_lt. discriminate.
  - intros H. now apply N.mod_small.
Qed.

Lemma num_params_exact_below_2_32_witness :
  mlirRockTuningGetNumParams (mkTuningParamSet [7%Z; 8%Z; 9%Z]) = 3.
Proof.
  refine (proj2 (num_params_exact_below_2_32 Z
                   (mkTuningParamSet [7%Z; 8%Z; 9%Z])) _).
  vm_compute. reflexivity.
Defined.

End PrefillProperties.
